(** * Fractional differentiation of monomials: [frac_diff.py]

    The numeric core of [frac_diff.py] is two functions:
    [is_negative_integer] and [analytical_frac_diff].  It maps a monomial
    [const * x^power] and an order [a] to the monomial that is its [a]-th
    derivative, in three regimes selected by classifying [power] and
    [power - a].

    The program is embedded twice.

    Exact model.  Python's [float] values are taken as real numbers:
    arithmetic is exact, there is no rounding, no overflow, no infinity and
    no NaN.  It carries the statements whose content is the classification
    and the power rule, which rounding does not disturb.

    Binary64 model ([Module Binary64]).  Python's [float] values are Rocq's
    primitive floats: IEEE 754 binary64 with round-to-nearest-even, the very
    numbers and operations Python computes with.  It carries the statements
    on which rounding, underflow or overflow bear, and every example run on
    concrete floats.

    Exceptions.  The operations of the core that can raise are kept
    fallible: float division ([ZeroDivisionError] on a zero divisor),
    [int(x)] and [math.gamma] ([ValueError], "math domain error", at zero
    and at the negative integers; [OverflowError], "math range error", when
    the result leaves the float range).  They live in a small error monad.

    [math.gamma] belongs to Python's library, not to the program.  In the
    exact model the Gamma function is a parameter [Gamma : R -> R]; in the
    binary64 model the library function is a parameter
    [gamma : float -> result float], errors included. *)

From Stdlib Require Import Floats.
From Stdlib Require Import Reals Lra Lia ZArith List Bool.
From Stdlib Require Import String.
Import ListNotations.

Local Open Scope R_scope.

(** ** Exceptions *)

Inductive exn : Type :=
| ValueError          (* math domain error, raised by math.gamma *)
| ZeroDivisionError   (* float division by zero *)
| OverflowError.      (* math range error; int() of an infinity *)

Inductive result (A : Type) : Type :=
| Ok (a : A)
| Raise (e : exn).

Arguments Ok {A} a.
Arguments Raise {A} e.

Definition bind {A B : Type} (m : result A) (k : A -> result B) : result B :=
  match m with
  | Ok a => k a
  | Raise e => Raise e
  end.

Notation "x <- m ;; k" := (bind m (fun x => k))
  (at level 61, m at next level, right associativity).

(** ** Float primitives over the reals *)

Definition Rltb (x y : R) : bool := if Rlt_dec x y then true else false.
Definition Rleb (x y : R) : bool := if Rle_dec x y then true else false.
Definition Rgeb (x y : R) : bool := if Rge_dec x y then true else false.
Definition Reqb (x y : R) : bool := if Req_dec_T x y then true else false.

(** [math.floor]. *)
Definition floor (x : R) : Z := Int_part x.

(** [float.is_integer]: [floor(x) == x]. *)
Definition is_integer (x : R) : bool := Reqb (IZR (floor x)) x.

(** [int(x)] on a float truncates towards zero. *)
Definition int (x : R) : Z :=
  if Rle_dec 0 x then floor x else (- floor (- x))%Z.

(** [x / y] on floats. *)
Definition fdiv (x y : R) : result R :=
  if Req_dec_T y 0 then Raise ZeroDivisionError else Ok (x / y).

(** ** The classifier (frac_diff.py, lines 8-9) *)

Definition is_negative_integer (x : R) : bool :=
  is_integer x && Rltb x 0.

(** ** The differentiator (frac_diff.py, lines 15-42) *)

(** [for i in range(n): const *= power; power -= 1] *)
Fixpoint differentiate_loop (n : nat) (const power : R) : R * R :=
  match n with
  | O => (const, power)
  | S n' => differentiate_loop n' (const * power) (power - 1)
  end.

(** [for i in range(n): const /= power+1; power += 1] *)
Fixpoint integrate_loop (n : nat) (const power : R) : result (R * R) :=
  match n with
  | O => Ok (const, power)
  | S n' =>
      c <- fdiv const (power + 1) ;;
      integrate_loop n' c (power + 1)
  end.

(** The divisors the integration loop meets, in order. *)
Fixpoint integrate_divisors (n : nat) (power : R) : list R :=
  match n with
  | O => []
  | S n' => (power + 1) :: integrate_divisors n' (power + 1)
  end.

Section Differentiator.

(** The Gamma function behind [math.gamma]. *)
Variable Gamma : R -> R.

(** The poles of Gamma: zero and the negative integers. *)
Definition is_pole (x : R) : bool := is_integer x && Rleb x 0.

(** [math.gamma] over the reals: the domain error at the poles.  No value
    leaves the float range in exact arithmetic; the range error is in the
    binary64 model. *)
Definition gamma (x : R) : result R :=
  if is_pole x then Raise ValueError else Ok (Gamma x).

Definition analytical_frac_diff (const power a : R) : result (R * R) :=
  if is_negative_integer power && is_negative_integer (power - a) then
    if Rgeb a 0 then
      Ok (differentiate_loop (Z.to_nat (int a)) const power)
    else
      integrate_loop (Z.to_nat (- int a)) const power
  else if is_negative_integer power || is_negative_integer (power - a) then
    Ok (0, 0)
  else
    g1 <- gamma (power + 1) ;;
    g2 <- gamma (power - a + 1) ;;
    c <- fdiv (const * g1) g2 ;;
    Ok (c, power - a).

End Differentiator.

(** ** The power rule as the specification words it

    "repeat [order] times: const <- const * power; power <- power - 1" and
    "repeat [|order|] times: const <- const / (power + 1); power <- power + 1",
    for an integer [order], over plain real division. *)

Definition differentiate_step (m : R * R) : R * R :=
  (fst m * snd m, snd m - 1).

Definition integrate_step (m : R * R) : R * R :=
  (fst m / (snd m + 1), snd m + 1).

Definition spec_power_rule (order : Z) (m : R * R) : R * R :=
  if (0 <=? order)%Z
  then Nat.iter (Z.to_nat order) differentiate_step m
  else Nat.iter (Z.abs_nat order) integrate_step m.

(** "x represents an integer value". *)
Definition integer_valued (x : R) : Prop := exists z : Z, x = IZR z.

(** ** A Gamma function to run the theorems on *)

(** Its values matter only where a call reaches [math.gamma]. *)
Definition Gamma_sample (x : R) : R :=
  if Req_dec_T x 3 then 2 else 3 / 4 * sqrt PI.

(** ** The sampled monomial (frac_diff.py, lines 44-51) *)

(** [x ** power] on floats, for a base [x > 0]: the program samples its
    curves on [linspace(0.00001, 5, 1000)] only. *)
Definition pow (x power : R) : R := Rpower x power.

(** [lambda x: const * x**power] *)
Definition monomial (const power : R) (x : R) : R := const * pow x power.

(** ** The legend text (frac_diff.py, lines 65-89) *)

(** [not s] on a string. *)
Definition str_empty (s : string) : bool :=
  match s with
  | EmptyString => true
  | String _ _ => false
  end.

Section Labels.

(** The float formatting ['%.4g' % x] of Python. *)
Variable fmt : R -> string.

Definition repr_function (const power : R) : string :=
  if Reqb const 0 then "0"%string
  else if Reqb const 1 && Reqb power 0 then "1"%string
  else
    let const_str := if Reqb const 1 then ""%string else fmt const in
    let power_str :=
      if Reqb power 0 then ""%string
      else if Reqb power 1 then "x"%string
      else ("x^{" ++ fmt power ++ "}")%string in
    let times :=
      if str_empty const_str || str_empty power_str then ""%string
      else " \, "%string in
    (const_str ++ times ++ power_str)%string.

Definition f_label (const power : R) : string :=
  ("$f(x)=" ++ repr_function const power ++ "$")%string.

(** The text naming the operator in [g_label]. *)
Definition d_string (order : R) : string :=
  if Reqb order 0 then "f(x)"%string
  else if Reqb order 1 then "\frac{d}{dx} \, f(x)"%string
  else if Reqb order (-1) then "\int f(x)dx"%string
  else ("\frac{d^{" ++ fmt order ++ "}}{dx^{" ++ fmt order
          ++ "}} \, f(x)")%string.

Definition g_label (Gamma : R -> R) (const power order : R) : result string :=
  let d := d_string order in
  r <- analytical_frac_diff Gamma const power order ;;
  Ok ("$g(x) = " ++ d ++ " = " ++ repr_function (fst r) (snd r) ++ "$")%string.

End Labels.

(** A stand-in for ['%.4g']: it never prints the empty string. *)
Definition fmt_sample (x : R) : string := "#"%string.

(** ** A closed form of the differentiation loop *)

(** [p (p - 1) ... (p - n + 1)] *)
Fixpoint falling (p : R) (n : nat) : R :=
  match n with
  | O => 1
  | S n' => p * falling (p - 1) n'
  end.

#[local] Set Warnings "-inexact-float".

(** ** The program over binary64 floats

    Rocq's primitive floats are the IEEE 754 binary64 numbers with
    round-to-nearest-even: Python's [float] with its [+], [-], [*], [/]
    and comparisons, infinities, NaN and signed zeros included. *)

Module Binary64.

Local Open Scope float_scope.

(** [float.is_integer]: the float is finite and has no fractional part.
    A finite nonzero float is [m * 2^e] up to its sign. *)
Definition is_integer (x : float) : bool :=
  match Prim2SF x with
  | S754_zero _ => true
  | S754_finite _ m e => (0 <=? e)%Z || (Zpos m mod 2 ^ (- e) =? 0)%Z
  | S754_infinity _ => false
  | S754_nan => false
  end.

(** frac_diff.py, lines 8-9 *)
Definition is_negative_integer (x : float) : bool :=
  is_integer x && (x <? 0).

(** [int(x)] on a float truncates towards zero; it raises [OverflowError]
    at an infinity and [ValueError] at NaN. *)
Definition int (x : float) : result Z :=
  match Prim2SF x with
  | S754_zero _ => Ok 0%Z
  | S754_finite s m e =>
      let v := if (0 <=? e)%Z then (Zpos m * 2 ^ e)%Z
               else (Zpos m / 2 ^ (- e))%Z in
      Ok (if s then (- v)%Z else v)
  | S754_infinity _ => Raise OverflowError
  | S754_nan => Raise ValueError
  end.

(** [x / y] on floats. *)
Definition fdiv (x y : float) : result float :=
  if y =? 0 then Raise ZeroDivisionError else Ok (x / y).

(** [for i in range(n): const *= power; power -= 1] *)
Fixpoint differentiate_loop (n : nat) (const power : float) : float * float :=
  match n with
  | O => (const, power)
  | S n' => differentiate_loop n' (const * power) (power - 1)
  end.

(** [for i in range(n): const /= power+1; power += 1] *)
Fixpoint integrate_loop (n : nat) (const power : float)
  : result (float * float) :=
  match n with
  | O => Ok (const, power)
  | S n' =>
      c <- fdiv const (power + 1) ;;
      integrate_loop n' c (power + 1)
  end.

Section Differentiator.

(** [math.gamma], with the errors it raises. *)
Variable gamma : float -> result float.

(** frac_diff.py, lines 15-42 *)
Definition analytical_frac_diff (const power a : float)
  : result (float * float) :=
  if is_negative_integer power && is_negative_integer (power - a) then
    if 0 <=? a then
      n <- int a ;;
      Ok (differentiate_loop (Z.to_nat n) const power)
    else
      n <- int a ;;
      integrate_loop (Z.to_nat (- n)) const power
  else if is_negative_integer power || is_negative_integer (power - a) then
    Ok (0, 0)
  else
    g1 <- gamma (power + 1) ;;
    g2 <- gamma (power - a + 1) ;;
    c <- fdiv (const * g1) g2 ;;
    Ok (c, power - a).

End Differentiator.

(** What [math.gamma] does at the arguments that the examples of this file
    reach, as CPython's [math] module computes it: seven values, one of
    them the zero that Gamma underflows to, the range error at [172] and
    the domain error at minus infinity.  No example reaches another
    argument. *)
Definition gamma_probe (x : float) : result float :=
  if x =? 3 then Ok 2
  else if x =? 2.5 then Ok 1.3293403881791372
  else if x =? 1.5 then Ok 0.886226925452758
  else if x =? 1.13 then Ok 0.9399314497315581
  else if x =? 1.1102230246251565e-16 then Ok 9007199254740990
  else if x =? -0.75 then Ok (-4.834146544295877)
  else if x =? -198.5 then Ok neg_zero
  else if x =? 172 then Raise OverflowError
  else if x =? neg_infinity then Raise ValueError
  else Raise OverflowError.

End Binary64.

(** ** Comparisons *)

Lemma Rltb_true (x y : R) : Rltb x y = true <-> x < y.
Proof. unfold Rltb; destruct (Rlt_dec x y); split; intros; auto; discriminate. Qed.

Lemma Rltb_false (x y : R) : Rltb x y = false <-> y <= x.
Proof.
  unfold Rltb; destruct (Rlt_dec x y); split; intros; auto; try discriminate; lra.
Qed.

Lemma Rleb_true (x y : R) : Rleb x y = true <-> x <= y.
Proof. unfold Rleb; destruct (Rle_dec x y); split; intros; auto; discriminate. Qed.

Lemma Rgeb_true (x y : R) : Rgeb x y = true <-> y <= x.
Proof.
  unfold Rgeb; destruct (Rge_dec x y); split; intros; auto; try discriminate; lra.
Qed.

Lemma Rgeb_false (x y : R) : Rgeb x y = false <-> x < y.
Proof.
  unfold Rgeb; destruct (Rge_dec x y); split; intros; auto; try discriminate; lra.
Qed.

Lemma Reqb_true (x y : R) : Reqb x y = true <-> x = y.
Proof. unfold Reqb; destruct (Req_dec_T x y); split; intros; auto; discriminate. Qed.

(** ** Integers among the reals *)

Lemma floor_IZR (z : Z) : floor (IZR z) = z.
Proof.
  unfold floor. symmetry. apply Int_part_spec. split; lra.
Qed.

Lemma is_integer_spec (x : R) : is_integer x = true <-> integer_valued x.
Proof.
  unfold is_integer. rewrite Reqb_true. split.
  - intros H. exists (floor x). now symmetry.
  - intros [z ->]. now rewrite floor_IZR.
Qed.

Lemma is_integer_IZR (z : Z) : is_integer (IZR z) = true.
Proof. apply is_integer_spec. now exists z. Qed.

Lemma is_integer_false (x : R) :
  is_integer x = false <-> ~ integer_valued x.
Proof.
  rewrite <- is_integer_spec. destruct (is_integer x); split; intros; auto;
    try discriminate. now elim H.
Qed.

Lemma int_IZR (z : Z) : int (IZR z) = z.
Proof.
  unfold int. destruct (Rle_dec 0 (IZR z)).
  - apply floor_IZR.
  - rewrite <- opp_IZR, floor_IZR. lia.
Qed.

Lemma is_negative_integer_spec (x : R) :
  is_negative_integer x = true <-> exists z : Z, x = IZR z /\ (z < 0)%Z.
Proof.
  unfold is_negative_integer. rewrite andb_true_iff, is_integer_spec, Rltb_true.
  split.
  - intros [[z ->] Hlt]. exists z. split; [reflexivity|]. now apply lt_IZR.
  - intros [z [-> Hlt]]. split; [now exists z|]. now apply IZR_lt.
Qed.

Lemma is_negative_integer_IZR (z : Z) :
  is_negative_integer (IZR z) = (z <? 0)%Z.
Proof.
  destruct (Z.ltb_spec z 0) as [H|H].
  - apply is_negative_integer_spec. now exists z.
  - unfold is_negative_integer. rewrite is_integer_IZR. simpl.
    apply Rltb_false. now apply IZR_le.
Qed.

(** A half-integer is not an integer. *)
Lemma half_not_integer (k : Z) : ~ integer_valued (IZR (2 * k + 1) / 2).
Proof.
  intros [z Hz].
  assert (H : IZR (2 * k + 1) = IZR (2 * z)).
  { rewrite (mult_IZR 2 z). lra. }
  apply eq_IZR in H. lia.
Qed.

Lemma is_pole_spec (x : R) :
  is_pole x = true <-> exists z : Z, x = IZR z /\ (z <= 0)%Z.
Proof.
  unfold is_pole. rewrite andb_true_iff, is_integer_spec, Rleb_true.
  split.
  - intros [[z ->] Hle]. exists z. split; [reflexivity|]. now apply le_IZR.
  - intros [z [-> Hle]]. split; [now exists z|]. now apply IZR_le.
Qed.

(** Shifting by one turns the negative integers into the poles. *)
Lemma is_pole_succ (x : R) : is_pole (x + 1) = is_negative_integer x.
Proof.
  apply eq_true_iff_eq. rewrite is_pole_spec, is_negative_integer_spec. split.
  - intros [z [Hz Hle]]. exists (z - 1)%Z. split; [|lia].
    rewrite minus_IZR. lra.
  - intros [z [-> Hlt]]. exists (z + 1)%Z. split; [|lia].
    now rewrite plus_IZR.
Qed.

(** ** The two loops *)

Lemma fdiv_ok (x y : R) : y <> 0 -> fdiv x y = Ok (x / y).
Proof. intros H. unfold fdiv. now destruct (Req_dec_T y 0). Qed.

Lemma fdiv_zero (x : R) : fdiv x 0 = Raise ZeroDivisionError.
Proof. unfold fdiv. destruct (Req_dec_T 0 0); [reflexivity | now elim n]. Qed.

Lemma iter_shift {A : Type} (f : A -> A) (n : nat) (x : A) :
  Nat.iter n f (f x) = f (Nat.iter n f x).
Proof. induction n as [|n IH]; simpl; [reflexivity | now rewrite IH]. Qed.

Lemma differentiate_loop_iter (n : nat) (const power : R) :
  differentiate_loop n const power =
  Nat.iter n differentiate_step (const, power).
Proof.
  revert const power. induction n as [|n IH]; intros const power.
  - reflexivity.
  - cbn [differentiate_loop]. rewrite IH.
    exact (iter_shift differentiate_step n (const, power)).
Qed.

(** The loop runs through exactly when none of its divisors is zero. *)
Lemma integrate_loop_iter (n : nat) (const power : R) :
  Forall (fun d => d <> 0) (integrate_divisors n power) ->
  integrate_loop n const power =
  Ok (Nat.iter n integrate_step (const, power)).
Proof.
  revert const power. induction n as [|n IH]; intros const power Hd.
  - reflexivity.
  - cbn [integrate_divisors] in Hd. inversion Hd as [|d l Hnz Hrest]; subst.
    cbn [integrate_loop]. rewrite (fdiv_ok _ _ Hnz). cbn [bind].
    rewrite (IH _ _ Hrest). f_equal.
    exact (iter_shift integrate_step n (const, power)).
Qed.

Lemma integrate_loop_raises (n : nat) (const power : R) :
  Exists (fun d => d = 0) (integrate_divisors n power) ->
  integrate_loop n const power = Raise ZeroDivisionError.
Proof.
  revert const power. induction n as [|n IH]; intros const power Hd.
  - inversion Hd.
  - cbn [integrate_divisors] in Hd. cbn [integrate_loop].
    destruct (Req_dec_T (power + 1) 0) as [Hz|Hnz].
    + rewrite Hz. now rewrite fdiv_zero.
    + rewrite (fdiv_ok _ _ Hnz). cbn [bind]. apply IH.
      inversion Hd; subst; [contradiction | assumption].
Qed.

(** Every divisor lies below the value the power ends at. *)
Lemma integrate_divisors_bound (n : nat) (power : R) :
  Forall (fun d => d <= power + INR n) (integrate_divisors n power).
Proof.
  revert power. induction n as [|n IH]; intros power.
  - constructor.
  - cbn [integrate_divisors]. rewrite S_INR. constructor.
    + pose proof (pos_INR n). lra.
    + eapply Forall_impl; [|apply IH]. cbn beta. intros d Hd. lra.
Qed.

Lemma differentiate_loop_scale (lambda : R) (n : nat) (const power : R) :
  differentiate_loop n (lambda * const) power =
  (lambda * fst (differentiate_loop n const power),
   snd (differentiate_loop n const power)).
Proof.
  revert const power. induction n as [|n IH]; intros const power.
  - reflexivity.
  - cbn [differentiate_loop]. rewrite <- IH. f_equal. ring.
Qed.

Lemma integrate_loop_scale (lambda : R) (n : nat) (const power c' k' : R) :
  integrate_loop n const power = Ok (c', k') ->
  integrate_loop n (lambda * const) power = Ok (lambda * c', k').
Proof.
  revert const power. induction n as [|n IH]; intros const power H.
  - cbn in *. now inversion H.
  - cbn [integrate_loop] in *. unfold fdiv in *.
    destruct (Req_dec_T (power + 1) 0); [discriminate|]. cbn [bind] in *.
    replace (lambda * const / (power + 1))
      with (lambda * (const / (power + 1))) by (unfold Rdiv; ring).
    now apply IH.
Qed.

(** ** The three branches *)

Section Branches.

Variable Gamma : R -> R.

Lemma gamma_ok (x : R) : is_pole x = false -> gamma Gamma x = Ok (Gamma x).
Proof. intros H. unfold gamma. now rewrite H. Qed.

Lemma branch_integer (const power a : R) :
  is_negative_integer power = true ->
  is_negative_integer (power - a) = true ->
  analytical_frac_diff Gamma const power a =
  if Rgeb a 0
  then Ok (differentiate_loop (Z.to_nat (int a)) const power)
  else integrate_loop (Z.to_nat (- int a)) const power.
Proof.
  intros H1 H2. unfold analytical_frac_diff. now rewrite H1, H2.
Qed.

Lemma branch_placeholder (const power a : R) :
  xorb (is_negative_integer power) (is_negative_integer (power - a)) = true ->
  analytical_frac_diff Gamma const power a = Ok (0, 0).
Proof.
  intros H. unfold analytical_frac_diff.
  destruct (is_negative_integer power), (is_negative_integer (power - a));
    try discriminate; reflexivity.
Qed.

Lemma branch_general_gamma (const power a : R) :
  is_negative_integer power = false ->
  is_negative_integer (power - a) = false ->
  analytical_frac_diff Gamma const power a =
  (c <- fdiv (const * Gamma (power + 1)) (Gamma (power - a + 1)) ;;
   Ok (c, power - a)).
Proof.
  intros H1 H2. unfold analytical_frac_diff. rewrite H1, H2. cbn [andb orb].
  rewrite !gamma_ok by now rewrite is_pole_succ. reflexivity.
Qed.

Lemma branch_general (const power a : R) :
  is_negative_integer power = false ->
  is_negative_integer (power - a) = false ->
  Gamma (power - a + 1) <> 0 ->
  analytical_frac_diff Gamma const power a =
  Ok (const * Gamma (power + 1) / Gamma (power - a + 1), power - a).
Proof.
  intros H1 H2 Hnz. rewrite branch_general_gamma by assumption.
  now rewrite fdiv_ok.
Qed.

(** In the integer branch the order is an integer too, and the power
    ends at the integer [power - a]. *)
Lemma integer_branch_order (power a : R) :
  is_negative_integer power = true ->
  is_negative_integer (power - a) = true ->
  exists p n : Z,
    power = IZR p /\ a = IZR n /\ (p < 0)%Z /\ (p - n < 0)%Z.
Proof.
  intros H1 H2.
  apply is_negative_integer_spec in H1 as [p [Hp Hpn]].
  apply is_negative_integer_spec in H2 as [q [Hq Hqn]].
  exists p, (p - q)%Z. repeat split; try lia; auto.
  rewrite minus_IZR. lra.
Qed.

Lemma integer_branch_divisors (power a : R) :
  is_negative_integer power = true ->
  is_negative_integer (power - a) = true ->
  a < 0 ->
  Forall (fun d => d <= -1)
         (integrate_divisors (Z.to_nat (- int a)) power).
Proof.
  intros H1 H2 Ha.
  destruct (integer_branch_order _ _ H1 H2) as (p & n & -> & -> & Hp & Hq).
  rewrite int_IZR. apply lt_IZR in Ha.
  eapply Forall_impl; [|apply integrate_divisors_bound].
  cbn beta. intros d Hd.
  rewrite INR_IZR_INZ, Z2Nat.id, <- plus_IZR in Hd by lia.
  apply Rle_trans with (1 := Hd). apply IZR_le. lia.
Qed.


End Branches.

(** ** Evaluating the classifier *)

Lemma is_negative_integer_nonneg (x : R) :
  0 <= x -> is_negative_integer x = false.
Proof.
  intros H. unfold is_negative_integer.
  apply andb_false_intro2. now apply Rltb_false.
Qed.

Lemma is_negative_integer_half (k : Z) :
  is_negative_integer (IZR (2 * k + 1) / 2) = false.
Proof.
  unfold is_negative_integer. apply andb_false_intro1.
  apply is_integer_false, half_not_integer.
Qed.

(** The derivative of [x^-1]: both [-1] and [-2] are negative integers, so
    the power rule runs once. *)
Lemma derivative_of_inverse (Gamma : R -> R) :
  analytical_frac_diff Gamma 1 (-1) 1 = Ok (-1, -2).
Proof.
  rewrite branch_integer.
  - replace (Rgeb 1 0) with true by (symmetry; apply Rgeb_true; lra).
    rewrite (int_IZR 1). change (Z.to_nat 1) with 1%nat.
    cbn [differentiate_loop]. f_equal. f_equal; lra.
  - exact (is_negative_integer_IZR (-1)).
  - replace (-1 - 1) with (-2) by lra. exact (is_negative_integer_IZR (-2)).
Qed.

(** ** The classifier *)

(** C8.  [is_negative_integer x] is true exactly when [x] has an integer
    value and [x < 0]; it is true at [-2.0] and false at [-2.5], [2.0] and
    [0.0]. *)
Theorem is_negative_integer_correct :
  (forall x : R,
      is_negative_integer x = true <-> integer_valued x /\ x < 0)
  /\ is_negative_integer (-2) = true
  /\ is_negative_integer (-2.5) = false
  /\ is_negative_integer 2 = false
  /\ is_negative_integer 0 = false.
Proof.
  split; [|repeat split].
  - intros x. unfold is_negative_integer.
    now rewrite andb_true_iff, is_integer_spec, Rltb_true.
  - exact (is_negative_integer_IZR (-2)).
  - replace (-2.5) with (IZR (2 * (-3) + 1) / 2) by (simpl; lra).
    apply is_negative_integer_half.
  - exact (is_negative_integer_IZR 2).
  - exact (is_negative_integer_IZR 0).
Qed.

(** ** The integer branch *)

(** C2.  When [power] and [power - order] are both negative integers, the
    order is an integer [n] and the result is the power rule run [|n|]
    times on [(const, power)]: differentiation steps when [n >= 0],
    integration steps when [n < 0], each step on the pair the previous one
    left. *)
Theorem power_rule_branch (Gamma : R -> R) (const power order : R) :
  is_negative_integer power = true ->
  is_negative_integer (power - order) = true ->
  exists n : Z,
    order = IZR n /\
    analytical_frac_diff Gamma const power order =
    Ok (spec_power_rule n (const, power)).
Proof.
  intros H1 H2.
  destruct (integer_branch_order _ _ H1 H2) as (p & n & Hp & Hn & _ & _).
  exists n. split; [exact Hn|].
  rewrite branch_integer by assumption. unfold spec_power_rule.
  destruct (Z.leb_spec 0 n) as [Hle|Hlt].
  - replace (Rgeb order 0) with true
      by (symmetry; apply Rgeb_true; rewrite Hn; now apply IZR_le).
    rewrite Hn, int_IZR. now rewrite differentiate_loop_iter.
  - assert (Hneg : order < 0) by (rewrite Hn; now apply IZR_lt).
    replace (Rgeb order 0) with false
      by (symmetry; now apply Rgeb_false).
    pose proof (integer_branch_divisors _ _ H1 H2 Hneg) as Hd.
    rewrite Hn, int_IZR in *.
    replace (Z.abs_nat n) with (Z.to_nat (- n)) by lia.
    apply integrate_loop_iter.
    eapply Forall_impl; [|exact Hd]. cbn beta. intros d Hle. lra.
Qed.

Lemma power_rule_branch_witness :
  exists n : Z,
    -2 = IZR n /\
    analytical_frac_diff Gamma_sample 1 (-3) (-2) =
    Ok (spec_power_rule n (1, -3)).
Proof.
  apply (power_rule_branch Gamma_sample 1 (-3) (-2)).
  - exact (is_negative_integer_IZR (-3)).
  - replace (-3 - -2) with (-1) by lra. exact (is_negative_integer_IZR (-1)).
Defined.

(** C9.  In the integration loop of the integer branch every divisor
    [power + 1] is at most [-1], so none is zero and the loop, hence the
    call, returns without a division by zero. *)
Theorem integration_divisors_nonzero
        (Gamma : R -> R) (const power order : R) :
  is_negative_integer power = true ->
  is_negative_integer (power - order) = true ->
  order < 0 ->
  Forall (fun d => d <= -1 /\ d <> 0)
         (integrate_divisors (Z.to_nat (- int order)) power)
  /\ exists r : R * R,
      integrate_loop (Z.to_nat (- int order)) const power = Ok r
      /\ analytical_frac_diff Gamma const power order = Ok r.
Proof.
  intros H1 H2 Hneg.
  pose proof (integer_branch_divisors _ _ H1 H2 Hneg) as Hd.
  split.
  - eapply Forall_impl; [|exact Hd]. cbn beta. intros d Hle. split; lra.
  - exists (Nat.iter (Z.to_nat (- int order)) integrate_step (const, power)).
    assert (Hloop : integrate_loop (Z.to_nat (- int order)) const power =
                    Ok (Nat.iter (Z.to_nat (- int order)) integrate_step
                                 (const, power))).
    { apply integrate_loop_iter.
      eapply Forall_impl; [|exact Hd]. cbn beta. intros d Hle. lra. }
    split; [exact Hloop|].
    rewrite branch_integer by assumption.
    replace (Rgeb order 0) with false
      by (symmetry; now apply Rgeb_false).
    exact Hloop.
Qed.

Lemma integration_divisors_nonzero_witness :
  Forall (fun d => d <= -1 /\ d <> 0)
         (integrate_divisors (Z.to_nat (- int (-2))) (-3))
  /\ exists r : R * R,
      integrate_loop (Z.to_nat (- int (-2))) 1 (-3) = Ok r
      /\ analytical_frac_diff Gamma_sample 1 (-3) (-2) = Ok r.
Proof.
  apply (integration_divisors_nonzero Gamma_sample 1 (-3) (-2)).
  - exact (is_negative_integer_IZR (-3)).
  - replace (-3 - -2) with (-1) by lra. exact (is_negative_integer_IZR (-1)).
  - lra.
Defined.

(** ** The placeholder branch *)

(** C3.  When exactly one of [power] and [power - order] is a negative
    integer the call returns the pair [(0, 0)] as an ordinary result,
    whatever [const] is. *)
Theorem placeholder_branch (Gamma : R -> R) (const power order : R) :
  xorb (is_negative_integer power) (is_negative_integer (power - order))
  = true ->
  analytical_frac_diff Gamma const power order = Ok (0, 0).
Proof. apply branch_placeholder. Qed.

Lemma placeholder_branch_witness :
  analytical_frac_diff Gamma_sample 7 (-1) (-1) = Ok (0, 0).
Proof.
  apply (placeholder_branch Gamma_sample 7 (-1) (-1)).
  replace (-1 - -1) with 0 by lra.
  rewrite (is_negative_integer_IZR (-1)), (is_negative_integer_IZR 0).
  reflexivity.
Defined.

(** C4, as the program has it.  [analytical_frac_diff(1, -1, 1)] returns
    [(-1, -2)]: [-1] and [-1 - 1 = -2] are both negative integers, so the
    call takes the integer branch and differentiates once. *)
Theorem inverse_derivative_value (Gamma : R -> R) :
  analytical_frac_diff Gamma 1 (-1) 1 = Ok (-1, -2).
Proof. apply derivative_of_inverse. Qed.

(** C4, as stated, fails: [analytical_frac_diff(1, -1, 1)] is not the
    placeholder [(0, 0)]. *)
Lemma inverse_derivative_not_placeholder :
  analytical_frac_diff Gamma_sample 1 (-1) 1 <> Ok (0, 0).
Proof.
  rewrite derivative_of_inverse. intros H.
  inversion H as [[H1 H2]]. lra.
Qed.

(** * Further properties of the program *)

(** ** Closed forms of the loops *)

Lemma differentiate_loop_closed (n : nat) (const power : R) :
  differentiate_loop n const power =
  (const * falling power n, power - INR n).
Proof.
  revert const power. induction n as [|n IH]; intros const power.
  - cbn. f_equal; lra.
  - cbn [differentiate_loop falling]. rewrite IH, S_INR. f_equal; lra.
Qed.

Lemma differentiate_loop_add (n m : nat) (const power : R) :
  differentiate_loop (n + m) const power =
  differentiate_loop m (fst (differentiate_loop n const power))
                       (snd (differentiate_loop n const power)).
Proof.
  revert const power. induction n as [|n IH]; intros const power.
  - reflexivity.
  - cbn [Nat.add differentiate_loop]. apply IH.
Qed.

(** ** Integer orders on a negative-integer power *)

Lemma negative_integer_shift (k : R) (z : Z) :
  is_negative_integer k = true ->
  k - IZR z < 0 ->
  is_negative_integer (k - IZR z) = true.
Proof.
  intros Hk Hlt. apply is_negative_integer_spec in Hk as [p [-> Hp]].
  rewrite <- minus_IZR in *. rewrite is_negative_integer_IZR.
  apply Z.ltb_lt. now apply lt_IZR.
Qed.

Lemma int_INR (n : nat) : Z.to_nat (int (INR n)) = n.
Proof. rewrite INR_IZR_INZ, int_IZR. apply Nat2Z.id. Qed.

Section IntegerOrders.

Variable Gamma : R -> R.

(** [n] differentiations of a negative-integer power. *)
Lemma integer_branch_differentiate (const k : R) (n : nat) :
  is_negative_integer k = true ->
  analytical_frac_diff Gamma const k (INR n) =
  Ok (differentiate_loop n const k).
Proof.
  intros Hk. pose proof (pos_INR n) as Hn.
  assert (Hneg : k < 0).
  { unfold is_negative_integer in Hk. apply andb_true_iff in Hk as [_ Hk].
    now apply Rltb_true. }
  rewrite branch_integer; auto.
  - replace (Rgeb (INR n) 0) with true by (symmetry; now apply Rgeb_true).
    now rewrite int_INR.
  - rewrite INR_IZR_INZ in *. apply negative_integer_shift; auto. lra.
Qed.

End IntegerOrders.

(** X2.  On a negative-integer power, differentiating [n] times and then
    [m] times is differentiating [n + m] times. *)
Theorem integer_differentiation_composes
        (Gamma : R -> R) (const power : R) (n m : nat) :
  is_negative_integer power = true ->
  exists c1 k1 : R,
    analytical_frac_diff Gamma const power (INR n) = Ok (c1, k1)
    /\ analytical_frac_diff Gamma c1 k1 (INR m) =
       analytical_frac_diff Gamma const power (INR (n + m)).
Proof.
  intros Hk.
  exists (fst (differentiate_loop n const power)),
         (snd (differentiate_loop n const power)).
  split.
  - rewrite integer_branch_differentiate by assumption.
    now destruct (differentiate_loop n const power).
  - rewrite (integer_branch_differentiate Gamma const power (n + m))
      by assumption.
    rewrite differentiate_loop_add.
    apply integer_branch_differentiate.
    rewrite differentiate_loop_closed. cbn [snd].
    rewrite INR_IZR_INZ. apply negative_integer_shift; auto.
    assert (Hneg : power < 0).
    { unfold is_negative_integer in Hk. apply andb_true_iff in Hk as [_ Hk].
      now apply Rltb_true. }
    rewrite <- INR_IZR_INZ. pose proof (pos_INR n). lra.
Qed.

Lemma integer_differentiation_composes_witness :
  exists c1 k1 : R,
    analytical_frac_diff Gamma_sample 1 (-1) (INR 1) = Ok (c1, k1)
    /\ analytical_frac_diff Gamma_sample c1 k1 (INR 2) =
       analytical_frac_diff Gamma_sample 1 (-1) (INR (1 + 2)).
Proof.
  apply (integer_differentiation_composes Gamma_sample 1 (-1) 1 2).
  exact (is_negative_integer_IZR (-1)).
Defined.

(** ** Integer orders on a power that is a natural number *)

(** X6.  Differentiating [x^k], [k] a natural number, more than [k] times
    gives the zero monomial [(0, 0)]. *)
Theorem natural_power_overdifferentiated
        (Gamma : R -> R) (const : R) (k n : nat) :
  (k < n)%nat ->
  analytical_frac_diff Gamma const (INR k) (INR n) = Ok (0, 0).
Proof.
  intros Hlt. apply branch_placeholder.
  rewrite is_negative_integer_nonneg by apply pos_INR.
  rewrite !INR_IZR_INZ, <- minus_IZR, is_negative_integer_IZR.
  replace (Z.of_nat k - Z.of_nat n <? 0)%Z with true
    by (symmetry; apply Z.ltb_lt; lia).
  reflexivity.
Qed.

Lemma natural_power_overdifferentiated_witness :
  analytical_frac_diff Gamma_sample 7 (INR 1) (INR 2) = Ok (0, 0).
Proof.
  apply (natural_power_overdifferentiated Gamma_sample 7 1 2). lia.
Defined.

(** ** The order [-1] at the power [-1] *)

(** The power rule for real exponents, on [x > 0]. *)
Lemma monomial_derivative (c k x : R) :
  0 < x ->
  derivable_pt_lim (monomial c k) x (monomial (c * k) (k - 1) x).
Proof.
  intros Hx. unfold monomial, pow.
  replace (c * k * Rpower x (k - 1)) with (c * (k * Rpower x (k - 1)))
    by ring.
  change (fun x0 : R => c * Rpower x0 k)
    with (mult_real_fct c (fun x0 : R => Rpower x0 k)).
  apply derivable_pt_lim_scal. now apply derivable_pt_lim_power.
Qed.

(** X10.  The documented deviation: at power [-1] the order [-1] returns
    the placeholder, and for [const <> 0] the zero monomial is not an
    antiderivative of [const * x^-1] at any [x > 0]. *)
Theorem inverse_not_integrated (Gamma : R -> R) (c x : R) :
  c <> 0 ->
  0 < x ->
  analytical_frac_diff Gamma c (-1) (-1) = Ok (0, 0)
  /\ ~ derivable_pt_lim (monomial 0 0) x (monomial c (-1) x).
Proof.
  intros Hc Hx. split.
  - apply branch_placeholder.
    replace (-1 - -1) with 0 by lra.
    now rewrite (is_negative_integer_IZR (-1)), (is_negative_integer_IZR 0).
  - intros Hder.
    pose proof (monomial_derivative 0 0 x Hx) as Hzero.
    pose proof (uniqueness_limite _ _ _ _ Hder Hzero) as Heq.
    unfold monomial, pow in Heq.
    assert (Hpos : 0 < Rpower x (-1)) by apply exp_pos.
    rewrite !Rmult_0_l in Heq.
    apply Rmult_integral in Heq as [Heq|Heq]; [contradiction | lra].
Qed.

Lemma inverse_not_integrated_witness :
  analytical_frac_diff Gamma_sample 1 (-1) (-1) = Ok (0, 0)
  /\ ~ derivable_pt_lim (monomial 0 0) 1 (monomial 1 (-1) 1).
Proof.
  apply (inverse_not_integrated Gamma_sample 1 1); lra.
Defined.

(** ** The legend text *)

Section LabelFacts.

Variable fmt : R -> string.
Variable Gamma : R -> R.

Lemma repr_function_zero (power : R) : repr_function fmt 0 power = "0"%string.
Proof.
  unfold repr_function.
  replace (Reqb 0 0) with true by (symmetry; now apply Reqb_true).
  reflexivity.
Qed.

(** X13.  [repr_function] never returns the empty string, the formatting
    of a float never being empty. *)
Theorem repr_function_nonempty (const power : R) :
  (forall x : R, str_empty (fmt x) = false) ->
  str_empty (repr_function fmt const power) = false.
Proof.
  intros Hfmt. unfold repr_function.
  destruct (Reqb const 0); [reflexivity|].
  destruct (Reqb const 1); cbn [andb].
  - destruct (Reqb power 0); [reflexivity|].
    destruct (Reqb power 1); reflexivity.
  - pose proof (Hfmt const) as Hc.
    destruct (fmt const) as [|ch rest]; [discriminate|]. reflexivity.
Qed.

(** X15.  In the placeholder branch the legend of [g] ends in [= 0]:
    the text is ["$g(x) = "], the operator, then [" = 0$"]. *)
Theorem g_label_placeholder (const power order : R) :
  xorb (is_negative_integer power) (is_negative_integer (power - order))
  = true ->
  g_label fmt Gamma const power order =
  Ok ("$g(x) = " ++ d_string fmt order ++ " = 0$")%string.
Proof.
  intros H. unfold g_label.
  rewrite branch_placeholder by assumption. cbn [bind fst snd].
  now rewrite repr_function_zero.
Qed.

End LabelFacts.

Lemma repr_function_nonempty_witness :
  str_empty (repr_function fmt_sample 2 3) = false.
Proof.
  apply (repr_function_nonempty fmt_sample 2 3). intros x. reflexivity.
Defined.

Lemma g_label_placeholder_witness :
  g_label fmt_sample Gamma_sample 7 (-1) (-1) =
  Ok ("$g(x) = " ++ d_string fmt_sample (-1) ++ " = 0$")%string.
Proof.
  apply (g_label_placeholder fmt_sample Gamma_sample 7 (-1) (-1)).
  replace (-1 - -1) with 0 by lra.
  rewrite (is_negative_integer_IZR (-1)), (is_negative_integer_IZR 0).
  reflexivity.
Defined.

(** * The general branch, rounding and the errors of [math.gamma] *)

(** ** Exact arithmetic *)

Section ExactLaws.

Variable Gamma : R -> R.


(** Over the reals the round trip is exact. *)
Lemma round_trip_exact (c k a : R) :
  is_negative_integer k = false ->
  is_negative_integer (k - a) = false ->
  Gamma (k + 1) <> 0 ->
  Gamma (k - a + 1) <> 0 ->
  analytical_frac_diff Gamma c k a =
  Ok (c * Gamma (k + 1) / Gamma (k - a + 1), k - a)
  /\ analytical_frac_diff Gamma (c * Gamma (k + 1) / Gamma (k - a + 1))
                          (k - a) (- a) = Ok (c, k).
Proof.
  intros Hk Hka Hg1 Hg2.
  assert (Hback : k - a - - a = k) by lra.
  split.
  - now apply branch_general.
  - rewrite branch_general; rewrite ?Hback; auto.
    f_equal. f_equal. now field.
Qed.

(** Over the reals the constant is homogeneous. *)
Lemma homogeneity_exact (lambda const power order c' k' : R) :
  analytical_frac_diff Gamma const power order = Ok (c', k') ->
  analytical_frac_diff Gamma (lambda * const) power order =
  Ok (lambda * c', k').
Proof.
  unfold analytical_frac_diff.
  destruct (is_negative_integer power && is_negative_integer (power - order)).
  - destruct (Rgeb order 0).
    + intros H. inversion H as [Hloop].
      rewrite differentiate_loop_scale, Hloop. reflexivity.
    + apply integrate_loop_scale.
  - destruct (is_negative_integer power
              || is_negative_integer (power - order)).
    + intros H. inversion H. f_equal. f_equal. ring.
    + destruct (gamma Gamma (power + 1)) as [g1|e]; [|discriminate].
      destruct (gamma Gamma (power - order + 1)) as [g2|e]; [|discriminate].
      cbn [bind]. unfold fdiv.
      destruct (Req_dec_T g2 0); [discriminate|].
      cbn [bind]. intros H. inversion H. f_equal. f_equal.
      unfold Rdiv. ring.
Qed.

End ExactLaws.

Lemma Gamma_sample_nonzero (x : R) : Gamma_sample x <> 0.
Proof.
  unfold Gamma_sample. pose proof (sqrt_lt_R0 PI PI_RGT_0).
  destruct (Req_dec_T x 3); lra.
Qed.

(** ** Binary64 arithmetic *)

Section Binary64Facts.

Local Open Scope float_scope.

Lemma float_sub_zero (x : float) : x - 0 = x.
Proof.
  apply Prim2SF_inj. rewrite sub_spec.
  change (Prim2SF 0) with (S754_zero false).
  unfold SF64sub, SFsub.
  destruct (Prim2SF x) as [[|]|[|]| |s m e]; reflexivity.
Qed.

(** When [power - a] is an integer, [a] is finite and [int(a)] returns. *)
Lemma int_of_integer_order (power a : float) :
  Binary64.is_integer (power - a) = true ->
  exists n : Z, Binary64.int a = Ok n.
Proof.
  unfold Binary64.is_integer, Binary64.int. rewrite sub_spec.
  unfold SF64sub, SFsub.
  destruct (Prim2SF a) as [sa|sa| |sa ma ea].
  - intros _. eexists. reflexivity.
  - destruct (Prim2SF power) as [sp|[|]| |sp mp ep]; destruct sa;
      intros H; discriminate.
  - destruct (Prim2SF power) as [sp|sp| |sp mp ep]; intros H; discriminate.
  - intros _. eexists. reflexivity.
Qed.

Lemma integrate_loop_error (n : nat) (const power : float) (e : exn) :
  Binary64.integrate_loop n const power = Raise e -> e = ZeroDivisionError.
Proof.
  revert const power. induction n as [|n IH]; intros const power.
  - discriminate.
  - cbn [Binary64.integrate_loop]. unfold Binary64.fdiv.
    destruct (power + 1 =? 0); cbn [bind].
    + intros H. now inversion H.
    + apply IH.
Qed.

Lemma differentiate_loop_power (n : nat) (c c' power : float) :
  snd (Binary64.differentiate_loop n c power) =
  snd (Binary64.differentiate_loop n c' power).
Proof.
  revert c c' power. induction n as [|n IH]; intros c c' power.
  - reflexivity.
  - cbn [Binary64.differentiate_loop]. apply IH.
Qed.

Lemma integrate_loop_power (n : nat) (c c' power r k : float) :
  Binary64.integrate_loop n c power = Ok (r, k) ->
  exists r' : float, Binary64.integrate_loop n c' power = Ok (r', k).
Proof.
  revert c c' power. induction n as [|n IH]; intros c c' power.
  - cbn. intros H. inversion H. now exists c'.
  - cbn [Binary64.integrate_loop]. unfold Binary64.fdiv.
    destruct (power + 1 =? 0); cbn [bind]; [discriminate|]. apply IH.
Qed.

Variable gamma : float -> result float.

Lemma binary64_placeholder (const power order : float) :
  xorb (Binary64.is_negative_integer power)
       (Binary64.is_negative_integer (power - order)) = true ->
  Binary64.analytical_frac_diff gamma const power order = Ok (0, 0).
Proof.
  intros H. unfold Binary64.analytical_frac_diff.
  destruct (Binary64.is_negative_integer power),
    (Binary64.is_negative_integer (power - order));
    try discriminate; reflexivity.
Qed.

Lemma binary64_general (const power order : float) :
  Binary64.is_negative_integer power = false ->
  Binary64.is_negative_integer (power - order) = false ->
  Binary64.analytical_frac_diff gamma const power order =
  (g1 <- gamma (power + 1) ;;
   g2 <- gamma (power - order + 1) ;;
   c <- Binary64.fdiv (const * g1) g2 ;;
   Ok (c, power - order)).
Proof.
  intros H1 H2. unfold Binary64.analytical_frac_diff. now rewrite H1, H2.
Qed.

Lemma binary64_general_returns (const power order g1 g2 : float) :
  Binary64.is_negative_integer power = false ->
  Binary64.is_negative_integer (power - order) = false ->
  gamma (power + 1) = Ok g1 ->
  gamma (power - order + 1) = Ok g2 ->
  (g2 =? 0) = false ->
  Binary64.analytical_frac_diff gamma const power order =
  Ok (const * g1 / g2, power - order).
Proof.
  intros H1 H2 Hg1 Hg2 Hnz. rewrite binary64_general by assumption.
  rewrite Hg1, Hg2. cbn [bind]. unfold Binary64.fdiv. now rewrite Hnz.
Qed.

Lemma binary64_general_zero_division (const power order g1 g2 : float) :
  Binary64.is_negative_integer power = false ->
  Binary64.is_negative_integer (power - order) = false ->
  gamma (power + 1) = Ok g1 ->
  gamma (power - order + 1) = Ok g2 ->
  (g2 =? 0) = true ->
  Binary64.analytical_frac_diff gamma const power order =
  Raise ZeroDivisionError.
Proof.
  intros H1 H2 Hg1 Hg2 Hz. rewrite binary64_general by assumption.
  rewrite Hg1, Hg2. cbn [bind]. unfold Binary64.fdiv. now rewrite Hz.
Qed.

Lemma binary64_general_gamma_raises (const power order : float) (e : exn) :
  Binary64.is_negative_integer power = false ->
  Binary64.is_negative_integer (power - order) = false ->
  gamma (power + 1) = Raise e
  \/ (exists g1 : float,
         gamma (power + 1) = Ok g1 /\ gamma (power - order + 1) = Raise e) ->
  Binary64.analytical_frac_diff gamma const power order = Raise e.
Proof.
  intros H1 H2 H. rewrite binary64_general by assumption.
  destruct H as [Hg1 | [g1 [Hg1 Hg2]]].
  - now rewrite Hg1.
  - now rewrite Hg1, Hg2.
Qed.

End Binary64Facts.

(** ** The general branch on floats *)

Section Binary64Claims.

Local Open Scope float_scope.

(** C1, as the program has it.  When neither [power] nor [power - order]
    is a negative integer: if [math.gamma] returns [g1] at [power + 1] and
    a nonzero [g2] at [power - order + 1], the call returns
    [(const * g1 / g2, power - order)]; if [g2] is zero it raises
    [ZeroDivisionError]; if [math.gamma] raises, the call raises the same
    error.  With [math.gamma(3.0) = 2.0] and
    [math.gamma(2.5) = 1.3293403881791372], the call on [(1, 2, 0.5)]
    returns the power [1.5] and a constant within [0.001] of [1.5045]. *)
Theorem general_formula_binary64 (gamma : float -> result float) :
  (forall const power order : float,
      Binary64.is_negative_integer power = false ->
      Binary64.is_negative_integer (power - order) = false ->
      (forall g1 g2 : float,
          gamma (power + 1) = Ok g1 ->
          gamma (power - order + 1) = Ok g2 ->
          (g2 =? 0) = false ->
          Binary64.analytical_frac_diff gamma const power order =
          Ok (const * g1 / g2, power - order))
      /\ (forall g1 g2 : float,
             gamma (power + 1) = Ok g1 ->
             gamma (power - order + 1) = Ok g2 ->
             (g2 =? 0) = true ->
             Binary64.analytical_frac_diff gamma const power order =
             Raise ZeroDivisionError)
      /\ (forall e : exn,
             gamma (power + 1) = Raise e
             \/ (exists g1 : float,
                    gamma (power + 1) = Ok g1
                    /\ gamma (power - order + 1) = Raise e) ->
             Binary64.analytical_frac_diff gamma const power order =
             Raise e))
  /\ (gamma 3 = Ok 2 ->
      gamma 2.5 = Ok 1.3293403881791372 ->
      exists c' : float,
        Binary64.analytical_frac_diff gamma 1 2 0.5 = Ok (c', 1.5)
        /\ (PrimFloat.abs (c' - 1.5045) <? 0.001) = true).
Proof.
  split.
  - intros const power order H1 H2. repeat split.
    + intros g1 g2. now apply binary64_general_returns.
    + intros g1 g2. now apply binary64_general_zero_division.
    + intros e. now apply binary64_general_gamma_raises.
  - intros H3 H25. exists (1 * 2 / 1.3293403881791372). split.
    + exact (binary64_general_returns gamma 1 2 0.5 2 1.3293403881791372
               eq_refl eq_refl H3 H25 eq_refl).
    + reflexivity.
Qed.

Lemma general_formula_binary64_witness :
  exists c' : float,
    Binary64.analytical_frac_diff Binary64.gamma_probe 1 2 0.5 = Ok (c', 1.5)
    /\ (PrimFloat.abs (c' - 1.5045) <? 0.001) = true.
Proof.
  exact (proj2 (general_formula_binary64 Binary64.gamma_probe)
               eq_refl eq_refl).
Defined.

(** C1, as stated, fails: on [(1.0, 0.5, 200.0)] neither [0.5] nor
    [-199.5] is a negative integer, [math.gamma(-198.5)] is [-0.0], and
    the call raises [ZeroDivisionError] instead of returning. *)
Lemma general_formula_raises :
  Binary64.is_negative_integer 0.5 = false
  /\ Binary64.is_negative_integer (0.5 - 200) = false
  /\ Binary64.analytical_frac_diff Binary64.gamma_probe 1 0.5 200 =
     Raise ZeroDivisionError.
Proof. repeat split; vm_compute; reflexivity. Qed.

(** C5, as the program has it.  At the order [0] a negative-integer power
    comes back with its constant, both unchanged.  For another power the
    power comes back unchanged and the constant as [const * g / g], [g]
    being what [math.gamma] returns at [power + 1], when [g] is not zero;
    the call raises [ZeroDivisionError] when [g] is zero, and the error of
    [math.gamma] when it raises. *)
Theorem order_zero_binary64
        (gamma : float -> result float) (const power : float) :
  (Binary64.is_negative_integer power = true ->
   Binary64.analytical_frac_diff gamma const power 0 = Ok (const, power))
  /\ (Binary64.is_negative_integer power = false ->
      (forall g : float,
          gamma (power + 1) = Ok g ->
          (g =? 0) = false ->
          Binary64.analytical_frac_diff gamma const power 0 =
          Ok (const * g / g, power))
      /\ (forall g : float,
             gamma (power + 1) = Ok g ->
             (g =? 0) = true ->
             Binary64.analytical_frac_diff gamma const power 0 =
             Raise ZeroDivisionError)
      /\ (forall e : exn,
             gamma (power + 1) = Raise e ->
             Binary64.analytical_frac_diff gamma const power 0 = Raise e)).
Proof.
  split.
  - intros H. unfold Binary64.analytical_frac_diff.
    rewrite float_sub_zero, H. reflexivity.
  - intros H.
    assert (H0 : Binary64.is_negative_integer (power - 0) = false)
      by now rewrite float_sub_zero.
    repeat split.
    + intros g Hg Hnz.
      rewrite (binary64_general_returns gamma const power 0 g g);
        rewrite ?float_sub_zero; auto.
    + intros g Hg Hz.
      apply (binary64_general_zero_division gamma const power 0 g g);
        rewrite ?float_sub_zero; auto.
    + intros e He. apply binary64_general_gamma_raises; auto.
Qed.

Lemma order_zero_binary64_witness :
  Binary64.analytical_frac_diff Binary64.gamma_probe 0.01 0.13 0 =
  Ok (0.01 * 0.9399314497315581 / 0.9399314497315581, 0.13).
Proof.
  apply (proj2 (order_zero_binary64 Binary64.gamma_probe 0.01 0.13)
               eq_refl); reflexivity.
Defined.

(** C5, as stated, fails: [analytical_frac_diff(0.01, 0.13, 0.0)] returns
    the constant [0.010000000000000002], which is not [0.01]. *)
Lemma order_zero_drifts :
  Binary64.analytical_frac_diff Binary64.gamma_probe 0.01 0.13 0 =
  Ok (0.010000000000000002, 0.13)
  /\ (0.010000000000000002 =? 0.01) = false.
Proof. split; vm_compute; reflexivity. Qed.

(** C6, as the program has it.  When neither [k] nor [k - a] is a negative
    integer and [math.gamma] returns [g1] at [k + 1] and a nonzero [g2] at
    [k - a + 1], the order [a] returns [(c * g1 / g2, k - a)].  Calling
    again with the order [-a]: if the float [k - a - -a] is not a negative
    integer and [math.gamma] returns a nonzero [g3] at [k - a - -a + 1],
    the result is [(c * g1 / g2 * g2 / g3, k - a - -a)]; if that float is a
    negative integer, the result is the placeholder [(0, 0)].  Over the
    reals, with Gamma nonzero at [k + 1] and [k - a + 1], the second result
    is [(c, k)] exactly. *)
Theorem round_trip_binary64 :
  (forall (gamma : float -> result float) (c k a g1 g2 : float),
      Binary64.is_negative_integer k = false ->
      Binary64.is_negative_integer (k - a) = false ->
      gamma (k + 1) = Ok g1 ->
      gamma (k - a + 1) = Ok g2 ->
      (g2 =? 0) = false ->
      Binary64.analytical_frac_diff gamma c k a = Ok (c * g1 / g2, k - a)
      /\ (forall g3 : float,
             Binary64.is_negative_integer (k - a - - a) = false ->
             gamma (k - a - - a + 1) = Ok g3 ->
             (g3 =? 0) = false ->
             Binary64.analytical_frac_diff gamma (c * g1 / g2) (k - a) (- a)
             = Ok (c * g1 / g2 * g2 / g3, k - a - - a))
      /\ (Binary64.is_negative_integer (k - a - - a) = true ->
          Binary64.analytical_frac_diff gamma (c * g1 / g2) (k - a) (- a)
          = Ok (0, 0)))
  /\ (forall (Gamma : R -> R) (c k a : R),
         is_negative_integer k = false ->
         is_negative_integer (k - a)%R = false ->
         Gamma (k + 1)%R <> 0%R ->
         Gamma (k - a + 1)%R <> 0%R ->
         analytical_frac_diff Gamma c k a =
         Ok (c * Gamma (k + 1) / Gamma (k - a + 1), k - a)%R
         /\ analytical_frac_diff
              Gamma (c * Gamma (k + 1) / Gamma (k - a + 1))%R (k - a)%R (- a)%R
            = Ok (c, k)).
Proof.
  split.
  - intros gamma c k a g1 g2 Hk Hka Hg1 Hg2 Hnz. repeat split.
    + now apply binary64_general_returns.
    + intros g3 Hback Hg3 Hnz3.
      now apply binary64_general_returns.
    + intros Hback. apply binary64_placeholder. now rewrite Hka, Hback.
  - intros Gamma c k a. apply round_trip_exact.
Qed.

Lemma round_trip_binary64_witness :
  (Binary64.analytical_frac_diff Binary64.gamma_probe 1 2 0.5 =
   Ok (1 * 2 / 1.3293403881791372, 2 - 0.5)
   /\ Binary64.analytical_frac_diff
        Binary64.gamma_probe (1 * 2 / 1.3293403881791372) (2 - 0.5) (- 0.5)
      = Ok (1 * 2 / 1.3293403881791372 * 1.3293403881791372 / 2,
            2 - 0.5 - - 0.5))
  /\ analytical_frac_diff
       Gamma_sample (1 * Gamma_sample (2 + 1) / Gamma_sample (2 - 1 + 1))%R
       (2 - 1)%R (- (1))%R
     = Ok (1, 2)%R.
Proof.
  split.
  - destruct (proj1 round_trip_binary64 Binary64.gamma_probe 1 2 0.5
                    2 1.3293403881791372
                    eq_refl eq_refl eq_refl eq_refl eq_refl)
      as (Hfirst & Hsecond & _).
    split; [exact Hfirst|].
    exact (Hsecond 2 eq_refl eq_refl eq_refl).
  - apply (proj2 round_trip_binary64 Gamma_sample 1%R 2%R 1%R).
    + apply is_negative_integer_nonneg. lra.
    + apply is_negative_integer_nonneg. lra.
    + apply Gamma_sample_nonzero.
    + apply Gamma_sample_nonzero.
Defined.

(** C6, as stated, fails: from [k = -0.9999999999999999] and [a = 0.75]
    the first call returns the power [-1.75]; in the second call the float
    [-1.75 - -0.75] is [-1.0], a negative integer, and the round trip ends
    on the placeholder [(0, 0)], not near [(1, k)]. *)
Lemma round_trip_placeholder :
  Binary64.is_negative_integer (-0.9999999999999999) = false
  /\ Binary64.is_negative_integer (-0.9999999999999999 - 0.75) = false
  /\ Binary64.analytical_frac_diff
       Binary64.gamma_probe 1 (-0.9999999999999999) 0.75
     = Ok (-1863244974517615.2, -1.75)
  /\ Binary64.analytical_frac_diff
       Binary64.gamma_probe (-1863244974517615.2) (-1.75) (- 0.75)
     = Ok (0, 0).
Proof. repeat split; vm_compute; reflexivity. Qed.




(** C10, as the program has it.  Branch selection does not read the
    constant: if the call on [(const, power, order)] returns [(c', k')],
    the call on [(lambda * const, power, order)] returns too, with the same
    power [k'].  In the placeholder branch both results are [(0, 0)].  The
    new constant is [lambda * c'] over the reals; on floats it is computed
    from [lambda * const] by the same operations and can differ from
    [lambda * c'] by rounding. *)
Theorem homogeneous_up_to_rounding :
  (forall (gamma : float -> result float)
          (lambda const power order c' k' : float),
      Binary64.analytical_frac_diff gamma const power order = Ok (c', k') ->
      exists c'' : float,
        Binary64.analytical_frac_diff gamma (lambda * const) power order
        = Ok (c'', k'))
  /\ (forall (gamma : float -> result float)
             (lambda const power order : float),
         xorb (Binary64.is_negative_integer power)
              (Binary64.is_negative_integer (power - order)) = true ->
         Binary64.analytical_frac_diff gamma const power order = Ok (0, 0)
         /\ Binary64.analytical_frac_diff gamma (lambda * const) power order
            = Ok (0, 0))
  /\ (forall (Gamma : R -> R) (lambda const power order c' k' : R),
         analytical_frac_diff Gamma const power order = Ok (c', k') ->
         analytical_frac_diff Gamma (lambda * const)%R power order
         = Ok (lambda * c', k')%R).
Proof.
  repeat split.
  - intros gamma lambda const power order c' k'.
    unfold Binary64.analytical_frac_diff.
    destruct (Binary64.is_negative_integer power
              && Binary64.is_negative_integer (power - order)).
    + destruct (0 <=? order); destruct (Binary64.int order) as [n|e];
        cbn [bind]; try discriminate.
      * intros H. inversion H as [Hloop].
        assert (Hk : snd (Binary64.differentiate_loop
                            (Z.to_nat n) const power) = k')
          by now rewrite Hloop.
        exists (fst (Binary64.differentiate_loop
                       (Z.to_nat n) (lambda * const) power)).
        rewrite <- Hk,
          (differentiate_loop_power _ const (lambda * const)).
        now rewrite <- surjective_pairing.
      * apply integrate_loop_power.
    + destruct (Binary64.is_negative_integer power
                || Binary64.is_negative_integer (power - order)).
      * intros H. inversion H. now exists 0.
      * destruct (gamma (power + 1)) as [g1|e]; [|discriminate].
        destruct (gamma (power - order + 1)) as [g2|e]; [|discriminate].
        cbn [bind]. unfold Binary64.fdiv.
        destruct (g2 =? 0); [discriminate|]. cbn [bind].
        intros H. inversion H. now eexists.
  - now apply binary64_placeholder.
  - now apply binary64_placeholder.
  - intros Gamma lambda const power order c' k'. apply homogeneity_exact.
Qed.

Lemma homogeneous_up_to_rounding_witness :
  (exists c'' : float,
      Binary64.analytical_frac_diff Binary64.gamma_probe (7 * 0.04) (-3) 1
      = Ok (c'', -4))
  /\ analytical_frac_diff Gamma_sample (3 * 1)%R (-1)%R 1%R
     = Ok (3 * -1, -2)%R.
Proof.
  destruct homogeneous_up_to_rounding as (Hfloat & _ & Hexact).
  split.
  - apply (Hfloat Binary64.gamma_probe 7 0.04 (-3) 1 (0.04 * -3) (-4)).
    vm_compute. reflexivity.
  - apply (Hexact Gamma_sample 3%R 1%R (-1)%R 1%R (-1)%R (-2)%R).
    apply derivative_of_inverse.
Defined.

(** C10, as stated, fails: [analytical_frac_diff(0.04, -3.0, 1.0)] returns
    the constant [-0.12] and [analytical_frac_diff(7 * 0.04, -3.0, 1.0)]
    returns [-0.8400000000000001], which is not [7 * -0.12]. *)
Lemma homogeneity_rounds :
  Binary64.analytical_frac_diff Binary64.gamma_probe 0.04 (-3) 1 =
  Ok (-0.12, -4)
  /\ Binary64.analytical_frac_diff Binary64.gamma_probe (7 * 0.04) (-3) 1 =
     Ok (-0.8400000000000001, -4)
  /\ (7 * -0.12 =? -0.8400000000000001) = false.
Proof. repeat split; vm_compute; reflexivity. Qed.

(** ** Non-finite orders *)

(** X18.  On floats, infinities and NaN included: when [power] and
    [power - order] are both negative integers the order is finite, so
    [int(order)] returns, and the only error the integer branch can raise
    is [ZeroDivisionError]. *)
Theorem integer_branch_errors
        (gamma : float -> result float) (const power order : float)
        (e : exn) :
  Binary64.is_negative_integer power = true ->
  Binary64.is_negative_integer (power - order) = true ->
  (exists n : Z, Binary64.int order = Ok n)
  /\ (Binary64.analytical_frac_diff gamma const power order = Raise e ->
      e = ZeroDivisionError).
Proof.
  intros H1 H2.
  assert (Hint : exists n : Z, Binary64.int order = Ok n).
  { unfold Binary64.is_negative_integer in H2.
    apply andb_true_iff in H2 as [H2 _].
    now apply (int_of_integer_order power order). }
  split; [exact Hint|].
  destruct Hint as [n Hn].
  unfold Binary64.analytical_frac_diff. rewrite H1, H2, Hn.
  cbn [andb bind]. destruct (0 <=? order); [discriminate|].
  apply integrate_loop_error.
Qed.

Lemma integer_branch_errors_witness :
  (exists n : Z, Binary64.int (-2) = Ok n)
  /\ (Binary64.analytical_frac_diff Binary64.gamma_probe 1 (-3) (-2)
      = Raise ZeroDivisionError ->
      ZeroDivisionError = ZeroDivisionError).
Proof.
  apply (integer_branch_errors Binary64.gamma_probe 1 (-3) (-2));
    reflexivity.
Defined.

End Binary64Claims.
